(** * QueriesFilter: the boolean term filter of [seo.api.queries]

    Shallow embedding of [QueriesFilter.filter] (src/sample.py, lines 40-97)
    and of the Python string methods and Redis commands it calls, followed
    by the properties of the specification that concern it; then of
    [QueryViewSet.upload] (lines 121-147) over an in-memory model of the
    tables it reads and writes. *)

From Stdlib Require Import Ascii String.
From stdpp Require Import base option list strings gmap sets.

Local Open Scope string_scope.
Local Open Scope list_scope.

(** ** Python [str] methods used by the filter

    A Python [str] is modelled as a Rocq [string]; a character is a code
    point below 256. *)
Module PyStr.

(** [str.isspace] on one character, for the code points below 256:
    TAB..CR, FS..US, SPACE, NEL and NBSP. *)
Definition isspace (c : ascii) : bool :=
  let n := nat_of_ascii c in
  (((9 <=? n) && (n <=? 13)) || ((28 <=? n) && (n <=? 32))
   || (n =? 133) || (n =? 160))%nat.

(** [s.startswith(c)] for a one-character prefix [c]. *)
Definition startswith (s : string) (c : ascii) : bool :=
  match s with
  | EmptyString => false
  | String a _ => Ascii.eqb a c
  end.

(** [s.replace(old, new)] for a one-character [old]: every occurrence of
    [old] is replaced, not only the first. *)
Fixpoint replace (s : string) (old : ascii) (new : string) : string :=
  match s with
  | EmptyString => EmptyString
  | String a s' =>
      if Ascii.eqb a old then new +:+ replace s' old new
      else String a (replace s' old new)
  end.

(** [s.lstrip()] *)
Fixpoint lstrip (s : string) : string :=
  match s with
  | EmptyString => EmptyString
  | String a s' => if isspace a then lstrip s' else s
  end.

(** [s.rstrip()] *)
Fixpoint rstrip (s : string) : string :=
  match s with
  | EmptyString => EmptyString
  | String a s' =>
      match rstrip s' with
      | EmptyString => if isspace a then EmptyString else String a EmptyString
      | r => String a r
      end
  end.

(** [s.strip()] *)
Definition strip (s : string) : string := rstrip (lstrip s).

(** [s.split(sep)] for a one-character [sep]: the pieces between the
    separators, empty pieces included; the empty string gives [['']]. *)
Fixpoint split (s : string) (sep : ascii) : list string :=
  match s with
  | EmptyString => [EmptyString]
  | String a s' =>
      if Ascii.eqb a sep then EmptyString :: split s' sep
      else match split s' sep with
           | w :: ws => String a w :: ws
           | [] => [String a EmptyString]
           end
  end.

(** Truth value of [value] in [if not value], for [None] or a [str]. *)
Definition truthy (value : option string) : bool :=
  match value with
  | None | Some EmptyString => false
  | Some (String _ _) => true
  end.

End PyStr.

(** ** Effects: index-store calls, log records and exceptions *)

(** Identifier sets as returned by [smembers] and [sunion]. *)
Abbreviation ids := (gset Z).

Inductive logarg := ArgS (s : string) | ArgD (n : nat).

Inductive event :=
| Connect                                       (* cache.client.connect() *)
| Smembers (key : string)                       (* r.smembers(key) *)
| Keys (pattern : string)                       (* r.keys(pattern) *)
| Sunion (keys : list string)                   (* r.sunion( *keys) *)
| LogInfo (fmt : string) (args : list logarg).  (* log.info(fmt, *args) *)

Inductive exn := TypeError (msg : string).

(** A computation returns the events it performed, in order, and either
    the exception that stopped it or its value. *)
Definition M (A : Type) : Type := (list event * (exn + A))%type.

Definition trace {A} (m : M A) : list event := fst m.
Definition outcome {A} (m : M A) : exn + A := snd m.

Definition raise {A} (e : exn) : M A := ([], inl e).
Definition emit (ev : event) : M unit := ([ev], inr tt).

#[global] Instance M_ret : MRet M := λ A a, ([], inr a).
#[global] Instance M_bind : MBind M := λ A B f m,
  match m with
  | (t, inl e) => (t, inl e)
  | (t, inr a) => let '(t', r) := f a in (t ++ t', r)
  end.

(** The index-store calls among the events of a trace. *)
Definition is_store_call (ev : event) : bool :=
  match ev with
  | LogInfo _ _ => false
  | _ => true
  end.

Definition store_calls (t : list event) : list event :=
  List.filter is_store_call t.

(** ** The index store

    Modelled from the spec: the Redis server behind [cache.client] is not
    part of the repository; section 4.1 of the specification gives the
    contract of the three commands the filter sends. The database holds
    set-valued keys only. *)
Record Redis := { db : gmap string ids }.

(** Modelled from the spec: the glob patterns of the [KEYS] command, which
    [r.keys] passes to the server: [*] any run of characters, [?] any one
    character, a bracket class with ranges and [^] negation, and backslash
    to quote the next character. *)
Module Glob.

Inductive item := ILit (c : ascii) | IRange (lo hi : ascii).

Inductive tok :=
| TStar
| TAny
| TLit (c : ascii)
| TClass (negated : bool) (items : list item).

(** Reads the pattern left to right; [cls] is the bracket class being
    read, if any. A class left open ends with the pattern. *)
Fixpoint tokenize (p : string) (cls : option (bool * list item))
  : list tok :=
  match cls with
  | None =>
      match p with
      | EmptyString => []
      | String "*" p' => TStar :: tokenize p' None
      | String "?" p' => TAny :: tokenize p' None
      | String "[" (String "^" p') => tokenize p' (Some (true, []))
      | String "[" p' => tokenize p' (Some (false, []))
      | String "\" (String x p') => TLit x :: tokenize p' None
      | String x p' => TLit x :: tokenize p' None
      end
  | Some (neg, its) =>
      match p with
      | EmptyString => [TClass neg its]
      | String "\" (String x p') =>
          tokenize p' (Some (neg, its ++ [ILit x]))
      | String "]" p' => TClass neg its :: tokenize p' None
      | String lo (String "-" (String hi p')) =>
          tokenize p' (Some (neg, its ++ [IRange lo hi]))
      | String x p' => tokenize p' (Some (neg, its ++ [ILit x]))
      end
  end.

Definition item_matches (c : ascii) (it : item) : bool :=
  match it with
  | ILit x => Ascii.eqb x c
  | IRange lo hi =>
      let l := nat_of_ascii lo in
      let h := nat_of_ascii hi in
      let n := nat_of_ascii c in
      (((l <=? n) && (n <=? h)) || ((h <=? n) && (n <=? l)))%nat
  end.

Fixpoint matches (ts : list tok) (s : string) : bool :=
  match ts with
  | [] => match s with EmptyString => true | _ => false end
  | TStar :: ts' =>
      (fix star (s : string) : bool :=
         matches ts' s
         || match s with
            | EmptyString => false
            | String _ s' => star s'
            end) s
  | TAny :: ts' =>
      match s with
      | EmptyString => false
      | String _ s' => matches ts' s'
      end
  | TLit c :: ts' =>
      match s with
      | EmptyString => false
      | String a s' => Ascii.eqb c a && matches ts' s'
      end
  | TClass neg its :: ts' =>
      match s with
      | EmptyString => false
      | String a s' =>
          xorb neg (existsb (item_matches a) its) && matches ts' s'
      end
  end.

Definition stringmatch (pattern s : string) : bool :=
  matches (tokenize pattern None) s.

End Glob.

(** Modelled from the spec: [ExactMembers], the members of the set stored
    at [key], the empty set when the key is absent. *)
Definition members (r : Redis) (key : string) : ids :=
  default ∅ (db r !! key).

(** [r.smembers(key)] *)
Definition smembers (r : Redis) (key : string) : M ids :=
  emit (Smembers key);; mret (members r key).

(** Modelled from the spec: [KeysMatchingPrefix], sent as the [KEYS]
    command with a glob pattern; the stored keys the pattern matches. *)
Definition keys (r : Redis) (pattern : string) : M (list string) :=
  emit (Keys pattern);;
  mret (List.filter (Glob.stringmatch pattern) (elements (dom (db r)))).

(** Modelled from the spec: [UnionMembers], the union of the sets stored
    at the given keys. [r.sunion( *keys)] of the client library has one
    required positional parameter, so a call with no key raises. *)
Definition sunion (r : Redis) (ks : list string) : M ids :=
  match ks with
  | [] => raise (TypeError "sunion() missing 1 required positional argument: 'keys'")
  | _ => emit (Sunion ks);; mret (⋃ (members r <$> ks))
  end.

(** ** Python [set] class methods called with an unpacked list *)

(** [set.intersection( *sets)]: the unbound method needs its receiver. *)
Definition set_intersection (sets : list ids) : M ids :=
  match sets with
  | [] => raise (TypeError "unbound method set.intersection() needs an argument")
  | s :: rest => mret (foldl (∩) s rest)
  end.

(** [set.union( *sets)] *)
Definition set_union (sets : list ids) : M ids :=
  match sets with
  | [] => raise (TypeError "unbound method set.union() needs an argument")
  | s :: rest => mret (foldl (∪) s rest)
  end.

(** ** The record query

    A [QuerySet] is lazy: [filter] and [exclude] build a restricted query
    from the one they are given. [Objects rows] stands for the query the
    filter receives, whose evaluation gives [rows]. *)
Record Query := { id : Z; query : string }.

Inductive QuerySet :=
| Objects (rows : list Query)
| FilterIdIn (qs : QuerySet) (good : ids)      (* qs.filter(id__in=good) *)
| ExcludeIdIn (qs : QuerySet) (bad : ids).     (* qs.exclude(id__in=bad) *)

Fixpoint rows_of (qs : QuerySet) : list Query :=
  match qs with
  | Objects rows => rows
  | FilterIdIn qs good =>
      List.filter (λ q, bool_decide (id q ∈ good)) (rows_of qs)
  | ExcludeIdIn qs bad =>
      List.filter (λ q, negb (bool_decide (id q ∈ bad))) (rows_of qs)
  end.

(** ** [QueriesFilter.filter] *)
Section QueriesFilter.

(** [settings.QUERYINDEX_PREFIX] *)
Variable QUERYINDEX_PREFIX : string.

Definition log_info (fmt : string) (args : list logarg) : M unit :=
  emit (LogInfo fmt args).

(** The body of [for word in queries], lines 51-82: the two lists after
    the iteration for [word]. [continue] leaves them as they are. *)
Definition filter_word (r : Redis) (acc : list ids * list ids)
    (word : string) : M (list ids * list ids) :=
  let '(ids_include, ids_exclude) := acc in
  if PyStr.startswith word "!" then
    let word := PyStr.strip (PyStr.replace word "!" "") in
    let key := QUERYINDEX_PREFIX +:+ "_" +:+ word in
    ids ← smembers r key;
    log_info "Part %s include %d" [ArgS word; ArgD (size ids)];;
    mret (ids_include ++ [ids], ids_exclude)
  else if PyStr.startswith word "-" then
    let word := PyStr.strip (PyStr.replace word "-" "") in
    keys ← keys r (QUERYINDEX_PREFIX +:+ "_" +:+ word +:+ "*");
    match keys with
    | [] => mret (ids_include, ids_exclude)
    | _ =>
        ids ← sunion r keys;
        log_info "Part %s exclude %d" [ArgS word; ArgD (size ids)];;
        mret (ids_include, ids_exclude ++ [ids])
    end
  else
    let word := PyStr.strip word in
    keys ← keys r (QUERYINDEX_PREFIX +:+ "_" +:+ word +:+ "*");
    match keys with
    | [] => mret (ids_include, ids_exclude)
    | _ =>
        ids ← sunion r keys;
        log_info "Part %s include %d" [ArgS word; ArgD (size ids)];;
        mret (ids_include ++ [ids], ids_exclude)
    end.

(** The loop of lines 50-82. *)
Fixpoint filter_words (r : Redis) (acc : list ids * list ids)
    (queries : list string) : M (list ids * list ids) :=
  match queries with
  | [] => mret acc
  | word :: queries' =>
      acc' ← filter_word r acc word;
      filter_words r acc' queries'
  end.

(** Lines 84-97. *)
Definition filter_combine (qs : QuerySet)
    (ids_include ids_exclude : list ids) : M QuerySet :=
  match ids_include with
  | _ :: _ =>
      good_ids ← set_intersection ids_include;
      good_ids ← match ids_exclude with
                 | _ :: _ =>
                     bad_ids ← set_union ids_exclude;
                     mret (good_ids ∖ bad_ids)
                 | [] => mret good_ids
                 end;
      log_info "Filter queries by ids %d" [ArgD (size good_ids)];;
      mret (FilterIdIn qs good_ids)
  | [] =>
      bad_ids ← set_union ids_exclude;
      log_info "Exclude queries by ids %d" [ArgD (size bad_ids)];;
      mret (ExcludeIdIn qs bad_ids)
  end.

(** [QueriesFilter.filter(self, qs, value)], lines 41-97. *)
Definition filter (r : Redis) (qs : QuerySet) (value : option string)
  : M QuerySet :=
  if negb (PyStr.truthy value) then mret qs
  else
    let queries := PyStr.split (default "" value) "," in
    emit Connect;;
    '(ids_include, ids_exclude) ← filter_words r ([], []) queries;
    filter_combine qs ids_include ids_exclude.

End QueriesFilter.

(** An index store and a record table for the examples: the index of
    section 8 of the specification. *)
Definition r0 : Redis :=
  {| db := {[ "ns_cat" := {[1; 2; 3]}; "ns_category" := {[3; 4]};
              "ns_dog" := {[5]} ]} |}%Z.

Definition rows0 : list Query :=
  [ {| id := 1; query := "cat food" |}; {| id := 4; query := "category" |};
    {| id := 5; query := "dog" |}; {| id := 9; query := "bird" |} ]%Z.

(** A second index store: two keys that differ by an inner hyphen. *)
Definition r1 : Redis :=
  {| db := {[ "ns_foo-bar" := {[1]}; "ns_foobar" := {[2]} ]} |}%Z.

(** The sets the iteration for [word] appends to [ids_include] and to
    [ids_exclude], read off a run of the loop body on empty lists. *)
Definition contribution (P : string) (r : Redis) (word : string)
  : list ids * list ids :=
  match outcome (filter_word P r ([], []) word) with
  | inr lists => lists
  | inl _ => ([], [])
  end.

(** A pattern character that stands for itself. *)
Definition literal (c : ascii) : bool :=
  negb (Ascii.eqb c "*" || Ascii.eqb c "?" || Ascii.eqb c "["
        || Ascii.eqb c "\").

(** ** Reading a result and a trace *)

(** A record passes when its identifier is in every inclusion set and in
    no exclusion set. *)
Definition passes (I E : list ids) (q : Query) : Prop :=
  Forall (λ S : ids, id q ∈ S) I ∧ Forall (λ S : ids, id q ∉ S) E.

#[global] Instance passes_dec I E q : Decision (passes I E q) :=
  and_dec (Forall_dec _ I) (Forall_dec _ E).

(** The events that ask the index store for one token: an exact lookup or
    a scan. *)
Definition is_lookup (ev : event) : bool :=
  match ev with
  | Smembers _ | Keys _ => true
  | _ => false
  end.

(** ** [QueryViewSet.upload] *)
Module Views.

(** Modelled from the spec: the record storage layer ([seo.models]) is not
    part of the source file. A row carries the columns that [upload] reads
    or writes; text columns compare exactly, character by character. *)
Record QueryRow := { q_id : Z; q_project : Z; q_query : string }.

Inductive LogAction :=
| QUERY_CREATE | QUERY_DELETE | QUERY_UNDELETE | GROUP_SHRINK | GROUP_EXPAND.

Record LogRow :=
  { log_actor : Z; log_action : LogAction; log_query : Z; log_project : Z }.

(** A task handed to [transaction.on_commit]. *)
Inductive task := HeatProjectCache (project_id : Z).

Record World :=
  { Project_objects : list Z;       (* primary keys of the Project table *)
    Query_objects : list QueryRow;  (* the Query table, in insertion order *)
    Query_seq : Z;                  (* last primary key given to a Query *)
    Log_objects : list LogRow;      (* the Log table, in insertion order *)
    on_commit : list task }.

Record Request := { user : Z; POST : gmap string string }.

Record Response := { data : string; status : Z }.

Inductive error :=
| DoesNotExist | MultipleObjectsReturned | ValueError | Http404.

Section Upload.

(** The primary key a posted text stands for; [None] when the text is not
    a number, for which the lookup raises [ValueError]. *)
Variable to_pk : string → option Z.

(** Modelled from the spec: [Project.objects.get(pk=...)] of the storage
    layer: the key of the project the posted text names. [DoesNotExist]
    when no key was posted or no project has it; [ValueError] when the text
    is not a number. *)
Definition Project_get (pk : option string) (w : World) : error + Z :=
  match pk with
  | None => inl DoesNotExist
  | Some s =>
      match to_pk s with
      | None => inl ValueError
      | Some n =>
          if bool_decide (n ∈ Project_objects w) then inr n else inl DoesNotExist
      end
  end.

Definition same_query (project : Z) (query : string) (row : QueryRow) : bool :=
  bool_decide (q_project row = project ∧ q_query row = query).

(** Modelled from the spec:
    [Query.objects.get_or_create(project=project, query=query)] of the
    storage layer: the one row with that project and text, flagged as not
    created; or, when there is none, a new row appended to the table under
    the next key, flagged as created. [MultipleObjectsReturned] when
    several rows match. *)
Definition Query_get_or_create (project : Z) (query : string) (w : World)
  : error + (QueryRow * bool * World) :=
  match List.filter (same_query project query) (Query_objects w) with
  | [] =>
      let q := {| q_id := Query_seq w + 1; q_project := project;
                  q_query := query |} in
      inr (q, true,
           {| Project_objects := Project_objects w; Query_objects := Query_objects w ++ [q];
              Query_seq := Query_seq w + 1; Log_objects := Log_objects w;
              on_commit := on_commit w |})
  | [q] => inr (q, false, w)
  | _ => inl MultipleObjectsReturned
  end.

(** Modelled from the spec:
    [Log.objects.create(actor=..., action=..., query=..., project=...)]
    of the storage layer: the row is appended to the Log table. *)
Definition Log_create (l : LogRow) (w : World) : World :=
  {| Project_objects := Project_objects w; Query_objects := Query_objects w;
     Query_seq := Query_seq w; Log_objects := Log_objects w ++ [l];
     on_commit := on_commit w |}.

(** The loop of lines 129-143. *)
Fixpoint upload_lines (actor project : Z) (lines : list string) (w : World)
  : (error + unit) * World :=
  match lines with
  | [] => (inr tt, w)
  | query :: lines' =>
      let query := PyStr.strip query in
      match query with
      | EmptyString => upload_lines actor project lines' w
      | _ =>
          match Query_get_or_create project query w with
          | inl e => (inl e, w)
          | inr (q, created, w) =>
              let w :=
                if created : bool
                then Log_create {| log_actor := actor;
                                   log_action := QUERY_CREATE;
                                   log_query := q_id q;
                                   log_project := project |} w
                else w in
              upload_lines actor project lines' w
          end
      end
  end.

(** [QueryViewSet.upload(self, request)], lines 122-147. *)
Definition upload (request : Request) (w : World)
  : (error + Response) * World :=
  match Project_get (POST request !! "project") w with
  | inl DoesNotExist => (inl Http404, w)
  | inl e => (inl e, w)
  | inr project =>
      let queries := default "" (POST request !! "queries") in
      match upload_lines (user request) project
              (PyStr.split queries "010") w with
      | (inl e, w) => (inl e, w)
      | (inr _, w) =>
          (inr {| data := ""; status := 201 |},
           {| Project_objects := Project_objects w; Query_objects := Query_objects w;
              Query_seq := Query_seq w; Log_objects := Log_objects w;
              on_commit := on_commit w ++ [HeatProjectCache project] |})
      end
  end.

End Upload.

(** The columns that identify a query for [get_or_create]. *)
Definition key (row : QueryRow) : Z * string := (q_project row, q_query row).

(** No two rows of the Query table have the same project and text. *)
Definition unique (w : World) : Prop := NoDup (key <$> Query_objects w).

(** The Log row written for a created query. *)
Definition create_log (actor : Z) (row : QueryRow) : LogRow :=
  {| log_actor := actor; log_action := QUERY_CREATE;
     log_query := q_id row; log_project := q_project row |}.

(** The world after [new] rows were created by [actor]. *)
Definition extended (actor : Z) (new : list QueryRow) (w : World) : World :=
  {| Project_objects := Project_objects w;
     Query_objects := Query_objects w ++ new;
     Query_seq := Query_seq w + Z.of_nat (length new);
     Log_objects := Log_objects w ++ (create_log actor <$> new);
     on_commit := on_commit w |}.

(** Reads decimal digits; for the examples. *)
Definition decimal_pk (s : string) : option Z :=
  match s with
  | EmptyString => None
  | _ =>
      foldl (λ acc c,
               n ← acc;
               let d := nat_of_ascii c in
               if ((48 <=? d) && (d <=? 57))%nat
               then Some (10 * n + Z.of_nat (d - 48))%Z else None)
            (Some 0%Z) (list_ascii_of_string s)
  end.

Definition w0 : World :=
  {| Project_objects := [7]%Z;
     Query_objects := [ {| q_id := 1; q_project := 7; q_query := "cat" |} ]%Z;
     Query_seq := 1; Log_objects := []; on_commit := [] |}.

Definition request0 : Request :=
  {| user := 3;
     POST := {[ "project" := "7";
                "queries" := String "010" (" dog " +:+ String "010" ("cat" +:+ String "010" "dog")) ]} |}.

(** The posted text, split into lines. *)
Definition posted_lines (request : Request) : list string :=
  PyStr.split (default "" (POST request !! "queries")) "010".


Definition request2 : Request :=
  {| user := 3; POST := {[ "project" := "7" ]} |}.

End Views.

(** ** The monad: outcome and trace of a sequence *)

Lemma outcome_bind {A B} (m : M A) (f : A → M B) :
  outcome (m ≫= f)
  = match outcome m with inl e => inl e | inr a => outcome (f a) end.
Proof.
  destruct m as [t [e|a]]; [reflexivity|].
  unfold outcome, mbind, M_bind; simpl. by destruct (f a).
Qed.

Lemma trace_bind {A B} (m : M A) (f : A → M B) :
  trace (m ≫= f)
  = trace m ++ match outcome m with inl _ => [] | inr a => trace (f a) end.
Proof.
  destruct m as [t [e|a]]; simpl.
  - by rewrite app_nil_r.
  - unfold trace, mbind, M_bind; simpl. by destruct (f a).
Qed.

(** ** The loop: what one word adds to the two lists *)

Lemma filter_word_outcome P r I E word :
  outcome (filter_word P r (I, E) word)
  = inr (I ++ (contribution P r word).1, E ++ (contribution P r word).2).
Proof.
  unfold contribution, filter_word.
  destruct (PyStr.startswith word "!"); [by rewrite app_nil_r|].
  destruct (PyStr.startswith word "-").
  - unfold keys, emit; simpl.
    destruct (List.filter _ _); simpl; by rewrite ?app_nil_r.
  - unfold keys, emit; simpl.
    destruct (List.filter _ _); simpl; by rewrite ?app_nil_r.
Qed.

Lemma filter_words_outcome P r I E queries :
  outcome (filter_words P r (I, E) queries)
  = inr (I ++ flat_map (λ w, (contribution P r w).1) queries,
         E ++ flat_map (λ w, (contribution P r w).2) queries).
Proof.
  revert I E; induction queries as [|w ws IH]; intros I E.
  - simpl. by rewrite !app_nil_r.
  - cbn [filter_words flat_map].
    rewrite outcome_bind, filter_word_outcome, IH.
    by rewrite <- !app_assoc.
Qed.

(** ** The glob patterns the filter builds

    A word of literal characters followed by [*] matches the keys that
    begin with the word: the prefix scan of the specification. *)

Lemma matches_star s : Glob.matches [Glob.TStar] s = true.
Proof. induction s as [|a s IH]; [done|]. simpl in *. exact IH. Qed.

Lemma tokenize_literal a p :
  literal a = true →
  Glob.tokenize (String a p) None = Glob.TLit a :: Glob.tokenize p None.
Proof.
  destruct a as [[] [] [] [] [] [] [] []]; try reflexivity; discriminate.
Qed.

Lemma stringmatch_literal_prefix (p s : string) :
  forallb literal (list_ascii_of_string p) = true →
  Glob.stringmatch (p +:+ "*") s = String.prefix p s.
Proof.
  unfold Glob.stringmatch.
  revert s; induction p as [|a p IH]; intros s Hlit.
  - simpl. rewrite matches_star. by destruct s.
  - simpl in Hlit. apply andb_prop in Hlit as [Ha Hp].
    change (String a p +:+ "*") with (String a (p +:+ "*")).
    rewrite (tokenize_literal _ _ Ha).
    destruct s as [|b s]; [done|].
    cbn [Glob.matches String.prefix]. rewrite (IH _ Hp).
    destruct (ascii_dec a b) as [->|Hne].
    + by rewrite Ascii.eqb_refl.
    + apply Ascii.eqb_neq in Hne. by rewrite Hne.
Qed.

(** ** The set operations of the last step *)

Lemma elem_of_foldl_intersection (i : Z) (s : ids) (rest : list ids) :
  i ∈ foldl (∩) s rest ↔ ∀ x, x ∈ s :: rest → i ∈ x.
Proof.
  revert s; induction rest as [|y rest IH]; intros s; simpl.
  - split; [|intros H; apply H; left].
    intros Hi x Hx. apply list_elem_of_singleton in Hx. by subst.
  - rewrite IH. split; intros H x Hx.
    + apply elem_of_cons in Hx as [->|Hx].
      * pose proof (H (s ∩ y) (list_elem_of_here _ _)). set_solver.
      * apply elem_of_cons in Hx as [->|Hx].
        -- pose proof (H (s ∩ y) (list_elem_of_here _ _)). set_solver.
        -- apply H. by right.
    + apply elem_of_cons in Hx as [->|Hx].
      * apply elem_of_intersection; split; apply H; [left|right; left].
      * apply H. by do 2 right.
Qed.

Lemma elem_of_foldl_union (i : Z) (s : ids) (rest : list ids) :
  i ∈ foldl (∪) s rest ↔ ∃ x, x ∈ s :: rest ∧ i ∈ x.
Proof.
  revert s; induction rest as [|y rest IH]; intros s; simpl.
  - split; [intros Hi; exists s; split; [left|done]|].
    intros (x & Hx & Hi). apply list_elem_of_singleton in Hx. by subst.
  - rewrite IH. split.
    + intros (x & Hx & Hi). apply elem_of_cons in Hx as [->|Hx].
      * apply elem_of_union in Hi as [Hi|Hi].
        -- exists s. split; [left|done].
        -- exists y. split; [right; left|done].
      * exists x. split; [by do 2 right|done].
    + intros (x & Hx & Hi). apply elem_of_cons in Hx as [->|Hx].
      * exists (s ∪ y). split; [left|set_solver].
      * apply elem_of_cons in Hx as [->|Hx].
        -- exists (s ∪ y). split; [left|set_solver].
        -- exists x. split; [by right|done].
Qed.

Lemma set_union_outcome (e : ids) (E : list ids) :
  outcome (set_union (e :: E)) = inr (⋃ (e :: E)).
Proof.
  change (@inr exn ids (foldl (∪) e E) = inr (⋃ (e :: E))).
  f_equal. apply set_eq; intros i.
  rewrite elem_of_foldl_union, elem_of_union_list. naive_solver.
Qed.

(** What lines 84-97 return, by the shape of the two lists. *)
Lemma filter_combine_keep qs (s : ids) (I E : list ids) :
  outcome (filter_combine qs (s :: I) E)
  = inr (FilterIdIn qs (foldl (∩) s I ∖ ⋃ E)).
Proof.
  destruct E as [|e E].
  - simpl. do 2 f_equal. set_solver.
  - unfold filter_combine.
    rewrite outcome_bind. cbn [set_intersection outcome snd mret M_ret].
    rewrite !outcome_bind, set_union_outcome. reflexivity.
Qed.

Lemma filter_combine_drop qs (e : ids) (E : list ids) :
  outcome (filter_combine qs [] (e :: E))
  = inr (ExcludeIdIn qs (⋃ (e :: E))).
Proof.
  unfold filter_combine. by rewrite !outcome_bind, set_union_outcome.
Qed.

Lemma filter_combine_raises qs :
  outcome (filter_combine qs [] [])
  = inl (TypeError "unbound method set.union() needs an argument").
Proof. reflexivity. Qed.

Lemma filter_combine_perm qs (I I' E E' : list ids) :
  I ≡ₚ I' → E ≡ₚ E' →
  outcome (filter_combine qs I E) = outcome (filter_combine qs I' E').
Proof.
  intros HI HE.
  assert (HU : ⋃ E = ⋃ E').
  { apply set_eq; intros i. rewrite !elem_of_union_list.
    by setoid_rewrite HE. }
  destruct I as [|s I], I' as [|s' I'];
    try (by apply Permutation_nil_cons in HI);
    try (by symmetry in HI; apply Permutation_nil_cons in HI).
  - destruct E as [|e E], E' as [|e' E'];
      try (by apply Permutation_nil_cons in HE);
      try (by symmetry in HE; apply Permutation_nil_cons in HE);
      [done|].
    by rewrite !filter_combine_drop, HU.
  - rewrite !filter_combine_keep, HU. do 3 f_equal.
    apply set_eq; intros i. rewrite !elem_of_foldl_intersection.
    by setoid_rewrite HI.
Qed.

(** [filter] on a non-empty string: the loop, then the last step. *)
Lemma filter_outcome P r qs (value : string) :
  value ≠ "" →
  outcome (filter P r qs (Some value))
  = outcome (filter_combine qs
      (flat_map (λ w, (contribution P r w).1) (PyStr.split value ","))
      (flat_map (λ w, (contribution P r w).2) (PyStr.split value ","))).
Proof.
  intros Hv. destruct value as [|a v]; [done|].
  unfold filter. cbn [PyStr.truthy negb default].
  rewrite !outcome_bind. cbn [emit outcome snd].
  by rewrite filter_words_outcome.
Qed.

(** ** Facts about the string methods *)

Lemma split_not_nil s sep : PyStr.split s sep ≠ [].
Proof.
  destruct s as [|a s]; simpl; [done|].
  destruct (Ascii.eqb a sep); [done|]. by destruct (PyStr.split s sep).
Qed.

Lemma split_singleton_empty s sep : PyStr.split s sep = [""] → s = "".
Proof.
  destruct s as [|a s]; simpl; [done|].
  destruct (Ascii.eqb a sep).
  - intros [= H]. by apply split_not_nil in H.
  - by destruct (PyStr.split s sep).
Qed.

Lemma rstrip_empty_head a s :
  PyStr.rstrip (String a s) = "" → PyStr.isspace a = true.
Proof.
  simpl. destruct (PyStr.rstrip s); [|done]. by destruct (PyStr.isspace a).
Qed.

Lemma strip_empty_head a s :
  PyStr.strip (String a s) = "" → PyStr.isspace a = true.
Proof.
  unfold PyStr.strip. cbn [PyStr.lstrip].
  destruct (PyStr.isspace a) eqn:Ha; [done|].
  intros H. apply rstrip_empty_head in H. congruence.
Qed.

(** A token that strips to nothing starts with neither marker. *)
Lemma strip_empty_startswith token (c : ascii) :
  PyStr.strip token = "" → PyStr.isspace c = false →
  PyStr.startswith token c = false.
Proof.
  destruct token as [|a s]; [done|]. intros H Hc.
  apply strip_empty_head in H. simpl.
  destruct (Ascii.eqb_spec a c); [congruence|done].
Qed.

Lemma rows_of_filter_empty qs : rows_of (FilterIdIn qs ∅) = [].
Proof.
  simpl. induction (rows_of qs) as [|q l IH]; [done|]. simpl.
  rewrite bool_decide_eq_false_2; [done|]. set_solver.
Qed.

(** ** Where the filter leaves the specification *)


(** A token that begins with a whitespace character takes the last branch
    of the loop body, whatever follows the whitespace: its first event is
    the [keys] scan for the stripped token. *)
Lemma leading_space_takes_last_branch P r I E (c : ascii) (rest : string) :
  PyStr.isspace c = true →
  ∃ t, trace (filter_word P r (I, E) (String c rest))
       = Keys (P +:+ "_" +:+ PyStr.strip (String c rest) +:+ "*") :: t.
Proof.
  intros Hc. unfold filter_word.
  assert (Hb : ∀ m : ascii, PyStr.isspace m = false →
                 PyStr.startswith (String c rest) m = false).
  { intros m Hm. simpl. destruct (Ascii.eqb_spec c m); [congruence|done]. }
  rewrite (Hb "!"%char eq_refl), (Hb "-"%char eq_refl).
  rewrite trace_bind. unfold keys at 1. by eexists.
Qed.

(** ** Properties of the specification *)

(** C9. An absent ([None]) or empty query string is a no-op: the filter
    raises nothing, sends nothing to the index store (it performs no event
    at all) and returns the record query it was given. *)
Theorem filter_falsy_value_noop P r qs :
  (trace (filter P r qs None) = []
   ∧ outcome (filter P r qs None) = inr qs)
  ∧ (trace (filter P r qs (Some "")) = []
     ∧ outcome (filter P r qs (Some "")) = inr qs).
Proof. repeat split. Qed.

(** C8. A token starting with [!], with word [w] (the token without its
    [!], stripped), is resolved by one call to the index store, the exact
    lookup [smembers] of the key [PREFIX_w], with no [keys] scan; the set
    it appends to the inclusion list holds exactly the identifiers stored
    under that key, none when the key is absent, so an identifier stored
    only under other keys is not in it. *)
Theorem exact_include_single_lookup P r I E token :
  PyStr.startswith token "!" = true →
  let w := PyStr.strip (PyStr.replace token "!" "") in
  let key := P +:+ "_" +:+ w in
  store_calls (trace (filter_word P r (I, E) token)) = [Smembers key]
  ∧ ∃ S : ids,
      outcome (filter_word P r (I, E) token) = inr (I ++ [S], E)
      ∧ (∀ i, i ∈ S ↔ ∃ s, db r !! key = Some s ∧ i ∈ s)
      ∧ (db r !! key = None → S = ∅).
Proof.
  intros Hbang w key. unfold filter_word. rewrite Hbang.
  split; [reflexivity|].
  exists (members r key). split; [reflexivity|].
  unfold members. destruct (db r !! key) as [s|]; simpl.
  - split; [|done]. intros i. naive_solver.
  - split; [|done]. intros i. split; [set_solver|]. by intros (s & ? & _).
Qed.

Lemma exact_include_single_lookup_witness :
  PyStr.startswith "!cat" "!" = true
  ∧ store_calls (trace (filter_word "ns" r0 ([], []) "!cat"))
    = [Smembers "ns_cat"]
  ∧ ∃ S : ids,
      outcome (filter_word "ns" r0 ([], []) "!cat") = inr ([S], [])
      ∧ (∀ i, i ∈ S ↔ ∃ s, db r0 !! "ns_cat" = Some s ∧ i ∈ s)
      ∧ (db r0 !! "ns_cat" = None → S = ∅).
Proof.
  split; [reflexivity|].
  apply (exact_include_single_lookup "ns" r0 [] [] "!cat"). reflexivity.
Defined.

(** C10. When some token of the query starts with [!] and its exact key is
    absent from the index store, the token appends an explicit empty set to
    the inclusion list, the filter returns [qs.filter(id__in=set())]
    whatever the other tokens are, and no record passes. *)
Theorem absent_exact_key_empties_result P r qs value token :
  token ∈ PyStr.split value "," →
  PyStr.startswith token "!" = true →
  db r !! (P +:+ "_" +:+ PyStr.strip (PyStr.replace token "!" "")) = None →
  (∀ I E, outcome (filter_word P r (I, E) token) = inr (I ++ [∅], E))
  ∧ outcome (filter P r qs (Some value)) = inr (FilterIdIn qs ∅)
  ∧ rows_of (FilterIdIn qs ∅) = [].
Proof.
  intros Hin Hbang Habs.
  assert (Hw : ∀ I E,
    outcome (filter_word P r (I, E) token) = inr (I ++ [∅], E)).
  { intros I E. unfold filter_word. rewrite Hbang. simpl.
    unfold members. by rewrite Habs. }
  split; [exact Hw|]. split; [|apply rows_of_filter_empty].
  assert (Hv : value ≠ "").
  { intros ->. simpl in Hin. apply list_elem_of_singleton in Hin.
    by subst. }
  rewrite (filter_outcome _ _ _ _ Hv).
  assert (Hc : (contribution P r token).1 = [∅]).
  { unfold contribution. by rewrite (Hw [] []). }
  assert (He : (∅ : ids) ∈
    flat_map (λ w, (contribution P r w).1) (PyStr.split value ",")).
  { apply list_elem_of_In, in_flat_map. exists token.
    split; [by apply list_elem_of_In|]. rewrite Hc. by left. }
  destruct (flat_map (λ w, (contribution P r w).1) _) as [|s I];
    [by apply not_elem_of_nil in He|].
  rewrite filter_combine_keep. do 2 f_equal.
  apply set_eq; intros i. rewrite elem_of_difference.
  rewrite elem_of_foldl_intersection.
  split; [intros [H _]; exact (H ∅ He)|set_solver].
Qed.

Lemma absent_exact_key_empties_result_witness :
  "!zzz" ∈ PyStr.split "cat,!zzz,-dog" ","
  ∧ PyStr.startswith "!zzz" "!" = true
  ∧ db r0 !! "ns_zzz" = None
  ∧ (∀ I E, outcome (filter_word "ns" r0 (I, E) "!zzz") = inr (I ++ [∅], E))
  ∧ outcome (filter "ns" r0 (Objects rows0) (Some "cat,!zzz,-dog"))
    = inr (FilterIdIn (Objects rows0) ∅)
  ∧ rows_of (FilterIdIn (Objects rows0) ∅) = [].
Proof.
  assert (H1 : "!zzz" ∈ PyStr.split "cat,!zzz,-dog" ",")
    by (simpl; right; left).
  assert (H2 : PyStr.startswith "!zzz" "!" = true) by reflexivity.
  assert (H3 : db r0 !! "ns_zzz" = None) by (vm_compute; reflexivity).
  split; [exact H1|]. split; [exact H2|]. split; [exact H3|].
  exact (absent_exact_key_empties_result "ns" r0 (Objects rows0)
           "cat,!zzz,-dog" "!zzz" H1 H2 H3).
Defined.

(** C2. For a non-empty query string whose tokens resolve to the inclusion
    list [I] and the exclusion list [E]: when [I] is not empty the filter
    returns [qs.filter(id__in=G)], where [G] holds the identifiers that are
    in every set of [I] and in no set of [E]; when [I] is empty and [E] is
    not, it returns [qs.exclude(id__in=B)], where [B] holds the identifiers
    that are in some set of [E]. *)
Theorem filter_decision_rule P r qs (value : string) (I E : list ids) :
  value ≠ "" →
  outcome (filter_words P r ([], []) (PyStr.split value ",")) = inr (I, E) →
  (I ≠ [] →
     ∃ G : ids,
       outcome (filter P r qs (Some value)) = inr (FilterIdIn qs G)
       ∧ (∀ i, i ∈ G ↔ (∀ s, s ∈ I → i ∈ s) ∧ (∀ s, s ∈ E → i ∉ s))
       ∧ (E = [] → ∀ i, i ∈ G ↔ ∀ s, s ∈ I → i ∈ s))
  ∧ (I = [] → E ≠ [] →
     ∃ B : ids,
       outcome (filter P r qs (Some value)) = inr (ExcludeIdIn qs B)
       ∧ B = ⋃ E
       ∧ ∀ i, i ∈ B ↔ ∃ s, s ∈ E ∧ i ∈ s).
Proof.
  intros Hv Hloop.
  rewrite filter_words_outcome in Hloop. simpl in Hloop.
  injection Hloop as HI HE.
  rewrite (filter_outcome _ _ _ _ Hv), HI, HE.
  split.
  - intros HIne. destruct I as [|s I]; [done|].
    exists (foldl (∩) s I ∖ ⋃ E).
    split; [apply filter_combine_keep|].
    assert (HG : ∀ i, i ∈ foldl (∩) s I ∖ ⋃ E
                      ↔ (∀ x, x ∈ s :: I → i ∈ x) ∧ (∀ x, x ∈ E → i ∉ x)).
    { intros i.
      rewrite elem_of_difference, elem_of_foldl_intersection,
        elem_of_union_list.
      naive_solver. }
    split; [exact HG|].
    intros -> i. rewrite HG. split; [by intros [H _]|].
    intros H. split; [done|]. intros x Hx. by apply not_elem_of_nil in Hx.
  - intros -> HEne. destruct E as [|e E]; [done|].
    exists (⋃ (e :: E)).
    split; [apply filter_combine_drop|]. split; [done|].
    intros i. rewrite elem_of_union_list. naive_solver.
Qed.

Lemma filter_decision_rule_witness :
  let I : list ids := [{[1; 2; 3; 4]}; {[1; 2; 3]}]%Z in
  let E : list ids := [{[3; 4]}]%Z in
  let value := "cat,!cat,-category" in
  let qs := Objects rows0 in
  value ≠ ""
  ∧ outcome (filter_words "ns" r0 ([], []) (PyStr.split value ","))
    = inr (I, E)
  ∧ (I ≠ [] →
       ∃ G : ids,
         outcome (filter "ns" r0 qs (Some value)) = inr (FilterIdIn qs G)
         ∧ (∀ i, i ∈ G ↔ (∀ s, s ∈ I → i ∈ s) ∧ (∀ s, s ∈ E → i ∉ s))
         ∧ (E = [] → ∀ i, i ∈ G ↔ ∀ s, s ∈ I → i ∈ s))
  ∧ (I = [] → E ≠ [] →
       ∃ B : ids,
         outcome (filter "ns" r0 qs (Some value)) = inr (ExcludeIdIn qs B)
         ∧ B = ⋃ E
         ∧ ∀ i, i ∈ B ↔ ∃ s, s ∈ E ∧ i ∈ s).
Proof.
  intros I E value qs.
  assert (H1 : value ≠ "") by discriminate.
  assert (H2 : outcome (filter_words "ns" r0 ([], [])
                          (PyStr.split value ",")) = inr (I, E))
    by (vm_compute; reflexivity).
  split; [exact H1|]. split; [exact H2|].
  exact (filter_decision_rule "ns" r0 qs value I E H1 H2).
Defined.

(** C6. A token that does not start with [!] (a prefix term, excluding or
    including) and whose [keys] scan returns no key leaves both lists as
    they were: nothing is appended, no empty set either. The loop over a
    token list that contains it gives the same two lists as the loop over
    that list without it, so the intersection of the remaining inclusion
    sets and the union of the exclusion sets are what they are without
    the term. *)
Theorem unmatched_prefix_term_omitted P r I E (pre post : list string) token :
  PyStr.startswith token "!" = false →
  let word := if PyStr.startswith token "-"
              then PyStr.strip (PyStr.replace token "-" "")
              else PyStr.strip token in
  outcome (keys r (P +:+ "_" +:+ word +:+ "*")) = inr [] →
  outcome (filter_word P r (I, E) token) = inr (I, E)
  ∧ outcome (filter_words P r (I, E) (pre ++ token :: post))
    = outcome (filter_words P r (I, E) (pre ++ post))
  ∧ ∀ qs,
      outcome (filter_combine qs
        (flat_map (λ w, (contribution P r w).1) (pre ++ token :: post))
        (flat_map (λ w, (contribution P r w).2) (pre ++ token :: post)))
      = outcome (filter_combine qs
          (flat_map (λ w, (contribution P r w).1) (pre ++ post))
          (flat_map (λ w, (contribution P r w).2) (pre ++ post))).
Proof.
  intros Hbang word Hscan.
  assert (Hw : ∀ I E, outcome (filter_word P r (I, E) token) = inr (I, E)).
  { intros I' E'. unfold filter_word. rewrite Hbang.
    subst word. unfold keys, emit in *. simpl in Hscan.
    injection Hscan as Hscan.
    destruct (PyStr.startswith token "-"); simpl; by rewrite Hscan. }
  assert (Hc : contribution P r token = ([], [])).
  { unfold contribution. by rewrite Hw. }
  split; [apply Hw|].
  assert (Hf1 : ∀ l : list string,
    flat_map (λ w, (contribution P r w).1) (pre ++ token :: l)
    = flat_map (λ w, (contribution P r w).1) (pre ++ l)).
  { intros l. rewrite !flat_map_app. simpl. by rewrite Hc. }
  assert (Hf2 : ∀ l : list string,
    flat_map (λ w, (contribution P r w).2) (pre ++ token :: l)
    = flat_map (λ w, (contribution P r w).2) (pre ++ l)).
  { intros l. rewrite !flat_map_app. simpl. by rewrite Hc. }
  split.
  - by rewrite !filter_words_outcome, Hf1, Hf2.
  - intros qs. by rewrite Hf1, Hf2.
Qed.

Lemma unmatched_prefix_term_omitted_witness :
  let pre := ["cat"] in
  let post := ["-dog"] in
  PyStr.startswith "-zzz" "!" = false
  ∧ outcome (keys r0 "ns_zzz*") = inr []
  ∧ outcome (filter_word "ns" r0 ([{[7]}], [{[8]}])%Z "-zzz")
    = inr ([{[7]}], [{[8]}])%Z
  ∧ outcome (filter_words "ns" r0 ([{[7]}], [{[8]}])%Z
               (pre ++ "-zzz" :: post))
    = outcome (filter_words "ns" r0 ([{[7]}], [{[8]}])%Z (pre ++ post))
  ∧ ∀ qs,
      outcome (filter_combine qs
        (flat_map (λ w, (contribution "ns" r0 w).1) (pre ++ "-zzz" :: post))
        (flat_map (λ w, (contribution "ns" r0 w).2) (pre ++ "-zzz" :: post)))
      = outcome (filter_combine qs
          (flat_map (λ w, (contribution "ns" r0 w).1) (pre ++ post))
          (flat_map (λ w, (contribution "ns" r0 w).2) (pre ++ post))).
Proof.
  intros pre post.
  assert (H1 : PyStr.startswith "-zzz" "!" = false) by reflexivity.
  assert (H2 : outcome (keys r0 "ns_zzz*") = inr [])
    by (vm_compute; reflexivity).
  split; [exact H1|]. split; [exact H2|].
  exact (unmatched_prefix_term_omitted "ns" r0 [{[7]}]%Z [{[8]}]%Z
           pre post "-zzz" H1 H2).
Defined.

(** C7. Two query strings whose comma-separated tokens are the same up to
    order give the same result: the same restricted query, with the same
    mode and the same identifier set, or the same exception. *)
Theorem filter_permutation_invariant P r qs (value value' : string) :
  PyStr.split value "," ≡ₚ PyStr.split value' "," →
  outcome (filter P r qs (Some value))
  = outcome (filter P r qs (Some value')).
Proof.
  intros Hperm.
  destruct (decide (value = "")) as [->|Hv].
  { simpl in Hperm. apply Permutation_singleton_l in Hperm.
    symmetry in Hperm. apply split_singleton_empty in Hperm. by subst. }
  destruct (decide (value' = "")) as [->|Hv'].
  { simpl in Hperm. apply Permutation_singleton_r in Hperm.
    by apply split_singleton_empty in Hperm. }
  rewrite (filter_outcome _ _ _ _ Hv), (filter_outcome _ _ _ _ Hv').
  apply filter_combine_perm; by apply Permutation_flat_map.
Qed.

Lemma filter_permutation_invariant_witness :
  PyStr.split "cat,-dog,!cat" "," ≡ₚ PyStr.split "-dog,!cat,cat" ","
  ∧ outcome (filter "ns" r0 (Objects rows0) (Some "cat,-dog,!cat"))
    = outcome (filter "ns" r0 (Objects rows0) (Some "-dog,!cat,cat")).
Proof.
  assert (H : PyStr.split "cat,-dog,!cat" ","
              ≡ₚ PyStr.split "-dog,!cat,cat" ",").
  { simpl. change ("cat" :: ["-dog"; "!cat"] ≡ₚ ["-dog"; "!cat"] ++ ["cat"]).
    apply Permutation_cons_append. }
  split; [exact H|].
  exact (filter_permutation_invariant "ns" r0 (Objects rows0) _ _ H).
Defined.

(** C3, as the specification states it, fails: the token [" "] is empty
    after trimming, yet on the index of section 8 it appends the union of
    all the sets of the namespace to the inclusion list. *)
Lemma blank_token_scans_namespace :
  PyStr.strip " " = ""
  ∧ outcome (filter_word "ns" r0 ([], []) " ")
    = inr ([{[1; 2; 3; 4; 5]}], [])%Z
  ∧ outcome (filter_word "ns" r0 ([], []) " ") ≠ inr ([], []).
Proof.
  split; [reflexivity|].
  assert (H : outcome (filter_word "ns" r0 ([], []) " ")
              = inr ([{[1; 2; 3; 4; 5]}], [])%Z) by (vm_compute; reflexivity).
  split; [exact H|]. rewrite H. discriminate.
Qed.

(** C3, amended. A token that is empty after trimming is resolved as a
    prefix-include term with the empty word: it sends one [keys] scan with
    the pattern [PREFIX_*]. When the scan returns no key, both lists stay
    as they were; otherwise the union of the sets stored at the returned
    keys is appended to the inclusion list. The exclusion list never
    changes. *)
Theorem blank_token_contribution P r I E token :
  PyStr.strip token = "" →
  ∃ ks : list string,
    outcome (keys r (P +:+ "_*")) = inr ks
    ∧ outcome (filter_word P r (I, E) token)
      = inr (match ks with
             | [] => (I, E)
             | _ => (I ++ [⋃ (members r <$> ks)], E)
             end)
    ∧ store_calls (trace (filter_word P r (I, E) token))
      = Keys (P +:+ "_*") :: match ks with [] => [] | _ => [Sunion ks] end.
Proof.
  intros Hstrip.
  pose proof (strip_empty_startswith token "!" Hstrip eq_refl) as Hbang.
  pose proof (strip_empty_startswith token "-" Hstrip eq_refl) as Hdash.
  unfold filter_word. rewrite Hbang, Hdash, Hstrip.
  change (P +:+ "_" +:+ "" +:+ "*") with (P +:+ "_*").
  unfold keys, emit. simpl.
  destruct (List.filter _ _) as [|k ks] eqn:Hks.
  - exists []. by repeat split.
  - exists (k :: ks). by repeat split.
Qed.

Lemma blank_token_contribution_witness :
  PyStr.strip "  " = ""
  ∧ ∃ ks : list string,
      outcome (keys r0 "ns_*") = inr ks
      ∧ outcome (filter_word "ns" r0 ([], [{[5]}])%Z "  ")
        = inr (match ks with
               | [] => ([], [{[5]}])
               | _ => ([] ++ [⋃ (members r0 <$> ks)], [{[5]}])
               end)%Z
      ∧ store_calls (trace (filter_word "ns" r0 ([], [{[5]}])%Z "  "))
        = Keys "ns_*" :: match ks with [] => [] | _ => [Sunion ks] end.
Proof.
  assert (H : PyStr.strip "  " = "") by reflexivity.
  split; [exact H|].
  exact (blank_token_contribution "ns" r0 [] [{[5]}]%Z "  " H).
Defined.

(** C1. The last step on two empty lists raises: [set.union] called with
    no argument is a [TypeError], whatever the record query. The query
    string ["zzz"] on the index of section 8 reaches that step, since its
    only term is a prefix term that matches no key. *)
Theorem filter_no_contribution_raises :
  (∀ qs, outcome (filter_combine qs [] [])
         = inl (TypeError "unbound method set.union() needs an argument"))
  ∧ outcome (filter_words "ns" r0 ([], []) (PyStr.split "zzz" ","))
    = inr ([], [])
  ∧ filter "ns" r0 (Objects rows0) (Some "zzz")
    = ([Connect; Keys "ns_zzz*"],
       inl (TypeError "unbound method set.union() needs an argument")).
Proof.
  split; [intros qs; reflexivity|].
  split; vm_compute; reflexivity.
Qed.

(** C4. The marker test reads the token as split, before any trimming: the
    token [" !cat"] does not start with [!], so it takes the last branch,
    where trimming leaves the marker in the word and the store is asked for
    the keys matching [ns_!cat*]; the token ["!cat"] is an exact lookup of
    [ns_cat]. Likewise [" -dog"] scans [ns_-dog*] as an inclusion. *)
Theorem marker_test_precedes_strip :
  PyStr.startswith " !cat" "!" = false
  ∧ PyStr.strip " !cat" = "!cat"
  ∧ filter_word "ns" r0 ([], []) " !cat"
    = ([Keys "ns_!cat*"], inr ([], []))
  ∧ store_calls (trace (filter_word "ns" r0 ([], []) "!cat"))
    = [Smembers "ns_cat"]
  ∧ outcome (filter_word "ns" r0 ([], []) "!cat")
    = inr ([{[1; 2; 3]}], [])%Z
  ∧ filter_word "ns" r0 ([], []) " -dog"
    = ([Keys "ns_-dog*"], inr ([], []))
  ∧ outcome (filter_word "ns" r0 ([], []) "-dog") = inr ([], [{[5]}])%Z.
Proof. repeat split; vm_compute; reflexivity. Qed.

Lemma replace_drops_every (s : string) (c : ascii) (n : nat) :
  String.get n (PyStr.replace s c "") ≠ Some c.
Proof.
  revert n; induction s as [|a s IH]; intros n; simpl; [done|].
  destruct (Ascii.eqb_spec a c) as [->|Hne]; simpl; [apply IH|].
  destruct n as [|n]; [congruence|apply IH].
Qed.

Lemma lstrip_get (s : string) (c : ascii) (n : nat) :
  String.get n (PyStr.lstrip s) = Some c → ∃ m, String.get m s = Some c.
Proof.
  revert n; induction s as [|a s IH]; intros n; simpl; [done|].
  destruct (PyStr.isspace a); [|by exists n].
  intros H. destruct (IH _ H) as [m Hm]. by exists (S m).
Qed.

Lemma rstrip_get (s : string) (c : ascii) (n : nat) :
  String.get n (PyStr.rstrip s) = Some c → ∃ m, String.get m s = Some c.
Proof.
  revert n; induction s as [|a s IH]; intros n; simpl; [done|].
  destruct (PyStr.rstrip s) as [|b t] eqn:Hr.
  - destruct (PyStr.isspace a); simpl; [done|].
    destruct n as [|n]; simpl; [by exists 0|done].
  - destruct n as [|n]; simpl; [by exists 0|].
    intros H. destruct (IH _ H) as [m Hm]. by exists (S m).
Qed.

Lemma strip_replace_drops_every (s : string) (c : ascii) (n : nat) :
  String.get n (PyStr.strip (PyStr.replace s c "")) ≠ Some c.
Proof.
  intros H. unfold PyStr.strip in H.
  apply rstrip_get in H as [m H]. apply lstrip_get in H as [k H].
  by apply replace_drops_every in H.
Qed.

(** C5. Removing the marker removes every occurrence of it: no [-] is left
    anywhere in the word of a token starting with [-], and no [!] in the
    word of a token starting with [!]. The token ["-foo-bar"] gives the
    word ["foobar"], so the scan asks for [ns_foobar*] and excludes the set
    stored at [ns_foobar], not the one stored at [ns_foo-bar]. *)
Theorem replace_removes_inner_markers :
  (∀ token n,
     String.get n (PyStr.strip (PyStr.replace token "-" "")) ≠ Some "-"%char
     ∧ String.get n (PyStr.strip (PyStr.replace token "!" "")) ≠ Some "!"%char)
  ∧ PyStr.strip (PyStr.replace "-foo-bar" "-" "") = "foobar"
  ∧ PyStr.strip (PyStr.replace "!a!b" "!" "") = "ab"
  ∧ filter_word "ns" r1 ([], []) "-foo-bar"
    = ([Keys "ns_foobar*"; Sunion ["ns_foobar"];
        LogInfo "Part %s exclude %d" [ArgS "foobar"; ArgD 1]],
       inr ([], [{[2]}])%Z)
  ∧ outcome (keys r1 "ns_foo-bar*") = inr ["ns_foo-bar"].
Proof.
  split; [intros token n; split; apply strip_replace_drops_every|].
  repeat split; vm_compute; reflexivity.
Qed.

(** ** Further properties of the filter *)

Lemma filter_ext_in {A} (f g : A → bool) (l : list A) :
  (∀ x, x ∈ l → f x = g x) → List.filter f l = List.filter g l.
Proof.
  induction l as [|a l IH]; intros H; [done|]. simpl.
  rewrite (H a (list_elem_of_here _ _)), IH; [done|].
  intros x Hx. apply H. by right.
Qed.

(** X1. For a non-empty query string whose tokens resolve to the lists
    [I] and [E], a result that is returned selects, in their order, exactly
    the records of the incoming query whose identifier is in every set of
    [I] and in no set of [E], in the [filter] mode and in the [exclude] mode
    alike. *)
Theorem filter_rows P r qs (value : string) (I E : list ids) qs' :
  value ≠ "" →
  outcome (filter_words P r ([], []) (PyStr.split value ",")) = inr (I, E) →
  outcome (filter P r qs (Some value)) = inr qs' →
  rows_of qs' = List.filter (λ q, bool_decide (passes I E q)) (rows_of qs).
Proof.
  intros Hv Hloop.
  rewrite filter_words_outcome in Hloop. simpl in Hloop.
  injection Hloop as HI HE.
  rewrite (filter_outcome _ _ _ _ Hv), HI, HE.
  destruct I as [|s I].
  - destruct E as [|e E]; [discriminate|].
    rewrite filter_combine_drop. intros [= <-]. cbn [rows_of].
    apply filter_ext_in. intros q _.
    destruct (decide (id q ∈ ⋃ (e :: E))) as [Hin|Hin].
    + rewrite (bool_decide_eq_true_2 _ Hin), bool_decide_eq_false_2; [done|].
      intros [_ HF]. rewrite Forall_forall in HF.
      apply elem_of_union_list in Hin as (S & HS & Hq). by apply (HF S).
    + rewrite (bool_decide_eq_false_2 _ Hin), bool_decide_eq_true_2; [done|].
      split; [constructor|]. apply Forall_forall. intros S HS Hq.
      apply Hin, elem_of_union_list. eauto.
  - rewrite filter_combine_keep. intros [= <-]. cbn [rows_of].
    apply filter_ext_in. intros q _. apply bool_decide_ext.
    unfold passes.
    rewrite elem_of_difference, elem_of_foldl_intersection,
      elem_of_union_list, !Forall_forall.
    naive_solver.
Qed.

Lemma filter_rows_witness :
  let I : list ids := [{[1; 2; 3; 4]}; {[1; 2; 3]}]%Z in
  let E : list ids := [{[3; 4]}]%Z in
  let value := "cat,!cat,-category" in
  let qs' := FilterIdIn (Objects rows0) {[1; 2]}%Z in
  value ≠ ""
  ∧ outcome (filter_words "ns" r0 ([], []) (PyStr.split value ","))
    = inr (I, E)
  ∧ outcome (filter "ns" r0 (Objects rows0) (Some value)) = inr qs'
  ∧ rows_of qs'
    = List.filter (λ q, bool_decide (passes I E q)) (rows_of (Objects rows0)).
Proof.
  intros I E value qs'.
  assert (H1 : value ≠ "") by discriminate.
  assert (H2 : outcome (filter_words "ns" r0 ([], [])
                          (PyStr.split value ",")) = inr (I, E))
    by (vm_compute; reflexivity).
  assert (H3 : outcome (filter "ns" r0 (Objects rows0) (Some value))
               = inr qs') by (vm_compute; reflexivity).
  split; [exact H1|]. split; [exact H2|]. split; [exact H3|].
  exact (filter_rows "ns" r0 (Objects rows0) value I E qs' H1 H2 H3).
Defined.

Lemma sublist_filter_l {A} (f : A → bool) (l : list A) :
  List.filter f l `sublist_of` l.
Proof.
  induction l as [|a l IH]; simpl; [done|].
  destruct (f a); [by apply sublist_skip|by apply sublist_cons].
Qed.

Lemma filter_combine_shape qs (I E : list ids) qs' :
  outcome (filter_combine qs I E) = inr qs' →
  (∃ G, qs' = FilterIdIn qs G) ∨ (∃ B, qs' = ExcludeIdIn qs B).
Proof.
  destruct I as [|s I].
  - destruct E as [|e E]; [discriminate|].
    rewrite filter_combine_drop. intros [= <-]. eauto.
  - rewrite filter_combine_keep. intros [= <-]. eauto.
Qed.

(** X2. Whatever the value, a result that is returned only removes
    records: its rows are a sublist of the rows of the incoming query, in
    the same order. *)
Theorem filter_only_removes P r qs (value : option string) qs' :
  outcome (filter P r qs value) = inr qs' →
  rows_of qs' `sublist_of` rows_of qs.
Proof.
  destruct value as [[|a v]|]; try (intros [= <-]; done).
  rewrite filter_outcome by done. intros H.
  apply filter_combine_shape in H as [[G ->]|[B ->]];
    apply sublist_filter_l.
Qed.

Lemma filter_only_removes_witness :
  outcome (filter "ns" r0 (Objects rows0) (Some "-dog"))
  = inr (ExcludeIdIn (Objects rows0) {[5]}%Z)
  ∧ rows_of (ExcludeIdIn (Objects rows0) {[5]}%Z)
    `sublist_of` rows_of (Objects rows0).
Proof.
  assert (H : outcome (filter "ns" r0 (Objects rows0) (Some "-dog"))
              = inr (ExcludeIdIn (Objects rows0) {[5]}%Z))
    by (vm_compute; reflexivity).
  split; [exact H|].
  exact (filter_only_removes "ns" r0 (Objects rows0) (Some "-dog") _ H).
Defined.





(** X5. A query string whose tokens all start with [-] never gives a
    [filter(id__in=...)] query: a result that is returned is
    [qs.exclude(id__in=B)] and keeps the records whose identifier is not in
    [B]. *)
Theorem exclusion_only_never_keeps P r qs (value : string) qs' :
  Forall (λ t, PyStr.startswith t "-" = true) (PyStr.split value ",") →
  outcome (filter P r qs (Some value)) = inr qs' →
  ∃ B : ids, qs' = ExcludeIdIn qs B
    ∧ rows_of qs' = List.filter (λ q, bool_decide (id q ∉ B)) (rows_of qs).
Proof.
  intros Hall.
  assert (Hv : value ≠ "").
  { intros ->. simpl in Hall. by apply Forall_cons in Hall as [? _]. }
  rewrite (filter_outcome _ _ _ _ Hv).
  assert (HI : flat_map (λ w, (contribution P r w).1)
                 (PyStr.split value ",") = []).
  { induction Hall as [|t ts Ht _ IH]; [done|]. simpl. rewrite IH.
    rewrite app_nil_r. unfold contribution, filter_word.
    destruct (PyStr.startswith t "!") eqn:Hb.
    { destruct t as [|a t]; [done|]. simpl in *.
      apply Ascii.eqb_eq in Hb, Ht. congruence. }
    rewrite Ht. unfold keys, emit. simpl.
    by destruct (List.filter _ _). }
  rewrite HI.
  destruct (flat_map (λ w, (contribution P r w).2) _) as [|e E];
    [discriminate|].
  rewrite filter_combine_drop. intros [= <-]. eexists. split; [done|].
  cbn [rows_of]. apply filter_ext_in. intros q _.
  by rewrite bool_decide_not.
Qed.

Lemma exclusion_only_never_keeps_witness :
  let qs' := ExcludeIdIn (Objects rows0) {[1; 2; 3; 4; 5]}%Z in
  Forall (λ t, PyStr.startswith t "-" = true) (PyStr.split "-dog,-cat" ",")
  ∧ outcome (filter "ns" r0 (Objects rows0) (Some "-dog,-cat")) = inr qs'
  ∧ ∃ B : ids, qs' = ExcludeIdIn (Objects rows0) B
      ∧ rows_of qs'
        = List.filter (λ q, bool_decide (id q ∉ B)) (rows_of (Objects rows0)).
Proof.
  intros qs'.
  assert (H1 : Forall (λ t, PyStr.startswith t "-" = true)
                 (PyStr.split "-dog,-cat" ","))
    by (simpl; repeat constructor).
  assert (H2 : outcome (filter "ns" r0 (Objects rows0) (Some "-dog,-cat"))
               = inr qs') by (vm_compute; reflexivity).
  split; [exact H1|]. split; [exact H2|].
  exact (exclusion_only_never_keeps "ns" r0 (Objects rows0) _ qs' H1 H2).
Defined.

Lemma filter_word_trace_acc P r acc word :
  trace (filter_word P r acc word) = trace (filter_word P r ([], []) word).
Proof.
  destruct acc as [I E]. unfold filter_word.
  destruct (PyStr.startswith word "!"); [done|].
  destruct (PyStr.startswith word "-");
    unfold keys, emit; simpl; by destruct (List.filter _ _).
Qed.

Lemma filter_words_trace P r acc queries :
  trace (filter_words P r acc queries)
  = flat_map (λ w, trace (filter_word P r ([], []) w)) queries.
Proof.
  revert acc; induction queries as [|w ws IH]; intros [I E]; [done|].
  cbn [filter_words flat_map].
  rewrite trace_bind, filter_word_outcome, IH.
  by rewrite (filter_word_trace_acc _ _ (I, E)).
Qed.

Lemma filter_combine_trace_logs qs I E ev :
  ev ∈ trace (filter_combine qs I E) → is_store_call ev = false.
Proof.
  destruct I as [|s I], E as [|e E]; simpl;
    intros H; repeat (apply elem_of_cons in H as [->|H]; [done|]);
    by apply not_elem_of_nil in H.
Qed.

Lemma filter_trace P r qs (value : string) :
  value ≠ "" →
  trace (filter P r qs (Some value))
  = Connect
    :: flat_map (λ w, trace (filter_word P r ([], []) w))
         (PyStr.split value ",")
    ++ trace (filter_combine qs
         (flat_map (λ w, (contribution P r w).1) (PyStr.split value ","))
         (flat_map (λ w, (contribution P r w).2) (PyStr.split value ","))).
Proof.
  intros Hv. destruct value as [|a v]; [done|].
  unfold filter. cbn [PyStr.truthy negb default].
  rewrite trace_bind. cbn [emit trace outcome fst snd app].
  rewrite trace_bind, filter_words_outcome, filter_words_trace.
  reflexivity.
Qed.

Lemma filter_word_one_lookup P r word :
  length (List.filter is_lookup (trace (filter_word P r ([], []) word))) = 1.
Proof.
  unfold filter_word.
  destruct (PyStr.startswith word "!"); [done|].
  destruct (PyStr.startswith word "-");
    unfold keys, emit; simpl;
    by destruct (List.filter (Glob.stringmatch _) _).
Qed.

Lemma filter_word_no_connect P r word :
  Connect ∉ trace (filter_word P r ([], []) word).
Proof.
  unfold filter_word.
  destruct (PyStr.startswith word "!");
    [|destruct (PyStr.startswith word "-");
      unfold keys, emit; simpl; destruct (List.filter _ _); simpl];
  intros H; repeat (apply elem_of_cons in H as [?|H]; [done|]);
  by apply not_elem_of_nil in H.
Qed.

(** X6. On a non-empty query string the filter connects to the store once,
    first, and sends exactly one lookup or scan ([smembers] or [keys]) per
    comma-separated token. *)
Theorem filter_store_traffic P r qs (value : string) :
  value ≠ "" →
  (∃ t, trace (filter P r qs (Some value)) = Connect :: t ∧ Connect ∉ t)
  ∧ length (List.filter is_lookup (trace (filter P r qs (Some value))))
    = length (PyStr.split value ",").
Proof.
  intros Hv. rewrite (filter_trace _ _ _ _ Hv). split.
  - eexists. split; [done|]. intros H.
    apply elem_of_app in H as [H|H].
    + apply list_elem_of_In, in_flat_map in H as (w & _ & H).
      by apply list_elem_of_In, filter_word_no_connect in H.
    + by apply filter_combine_trace_logs in H.
  - cbn [List.filter is_lookup]. rewrite List.filter_app, length_app.
    assert (Hc : ∀ t : list event,
      (∀ ev, ev ∈ t → is_store_call ev = false) →
      List.filter is_lookup t = []).
    { induction t as [|ev t IH]; intros H; [done|]. simpl.
      pose proof (H ev (list_elem_of_here _ _)) as Hev.
      rewrite IH by (intros ev' Hev'; apply H; by right).
      by destruct ev. }
    rewrite (Hc (trace (filter_combine _ _ _)))
      by apply filter_combine_trace_logs.
    cbn [length]. rewrite Nat.add_0_r.
    induction (PyStr.split value ",") as [|w ws IH]; [done|].
    cbn [flat_map length]. cbn beta.
    rewrite List.filter_app, length_app, IH.
    by rewrite filter_word_one_lookup.
Qed.

Lemma filter_store_traffic_witness :
  "cat,-dog" ≠ ""
  ∧ (∃ t, trace (filter "ns" r0 (Objects rows0) (Some "cat,-dog"))
          = Connect :: t ∧ Connect ∉ t)
  ∧ length (List.filter is_lookup
              (trace (filter "ns" r0 (Objects rows0) (Some "cat,-dog"))))
    = length (PyStr.split "cat,-dog" ",").
Proof.
  assert (H : "cat,-dog" ≠ "") by discriminate.
  split; [exact H|].
  exact (filter_store_traffic "ns" r0 (Objects rows0) "cat,-dog" H).
Defined.




Lemma filter_combine_same_sets qs (I I' E E' : list ids) :
  (∀ S, S ∈ I ↔ S ∈ I') → (∀ S, S ∈ E ↔ S ∈ E') →
  outcome (filter_combine qs I E) = outcome (filter_combine qs I' E').
Proof.
  intros HI HE.
  assert (HU : ⋃ E = ⋃ E').
  { apply set_eq; intros i. rewrite !elem_of_union_list.
    by setoid_rewrite HE. }
  assert (Hnil : ∀ l l' : list ids, (∀ S, S ∈ l ↔ S ∈ l') → l = [] → l' = []).
  { intros l l' H ->. destruct l' as [|x l']; [done|].
    by destruct (not_elem_of_nil x); apply H; left. }
  destruct I as [|s I], I' as [|s' I'].
  - destruct E as [|e E], E' as [|e' E']; [done| | |].
    + by specialize (Hnil _ _ HE eq_refl).
    + symmetry in HE.
      assert (H' : ∀ S, S ∈ [] ↔ S ∈ e :: E) by (intros S; by rewrite HE).
      by specialize (Hnil _ _ H' eq_refl).
    + by rewrite !filter_combine_drop, HU.
  - by specialize (Hnil _ _ HI eq_refl).
  - assert (H' : ∀ S, S ∈ [] ↔ S ∈ s :: I) by (intros S; by rewrite HI).
    by specialize (Hnil _ _ H' eq_refl).
  - rewrite !filter_combine_keep, HU. do 3 f_equal.
    apply set_eq; intros i. rewrite !elem_of_foldl_intersection.
    by setoid_rewrite HI.
Qed.

(** X8. Two non-empty query strings with the same set of tokens give the
    same result: neither the order of the tokens nor a repeated token
    changes it. *)
Theorem filter_token_set P r qs (value value' : string) :
  value ≠ "" → value' ≠ "" →
  (∀ t, t ∈ PyStr.split value "," ↔ t ∈ PyStr.split value' ",") →
  outcome (filter P r qs (Some value))
  = outcome (filter P r qs (Some value')).
Proof.
  intros Hv Hv' Hset.
  rewrite (filter_outcome _ _ _ _ Hv), (filter_outcome _ _ _ _ Hv').
  assert (Hfm : ∀ f : string → list ids, ∀ S,
    S ∈ flat_map f (PyStr.split value ",")
    ↔ S ∈ flat_map f (PyStr.split value' ",")).
  { intros f S. rewrite !list_elem_of_In, !in_flat_map.
    split; intros (t & Ht & HS); exists t;
      (split; [|done]); apply list_elem_of_In, Hset; by apply list_elem_of_In. }
  apply filter_combine_same_sets; apply Hfm.
Qed.

Lemma filter_token_set_witness :
  "cat,cat,-dog" ≠ "" ∧ "-dog,cat" ≠ ""
  ∧ (∀ t, t ∈ PyStr.split "cat,cat,-dog" "," ↔ t ∈ PyStr.split "-dog,cat" ",")
  ∧ outcome (filter "ns" r0 (Objects rows0) (Some "cat,cat,-dog"))
    = outcome (filter "ns" r0 (Objects rows0) (Some "-dog,cat")).
Proof.
  assert (H1 : "cat,cat,-dog" ≠ "") by discriminate.
  assert (H2 : "-dog,cat" ≠ "") by discriminate.
  assert (H3 : ∀ t, t ∈ PyStr.split "cat,cat,-dog" ","
                    ↔ t ∈ PyStr.split "-dog,cat" ",").
  { intros t. simpl. rewrite !elem_of_cons. tauto. }
  split; [exact H1|]. split; [exact H2|]. split; [exact H3|].
  exact (filter_token_set "ns" r0 (Objects rows0) _ _ H1 H2 H3).
Defined.

Lemma rstrip_app_space s c :
  PyStr.isspace c = true → PyStr.rstrip (s +:+ String c "") = PyStr.rstrip s.
Proof.
  intros Hc. induction s as [|a s IH]; simpl; [by rewrite Hc|].
  by rewrite IH.
Qed.

Lemma lstrip_app_space s c :
  PyStr.isspace c = true →
  PyStr.lstrip (s +:+ String c "") = PyStr.lstrip s +:+ String c ""
  ∨ (PyStr.lstrip s = "" ∧ PyStr.lstrip (s +:+ String c "") = "").
Proof.
  intros Hc. induction s as [|a s IH]; simpl.
  - right. by rewrite Hc.
  - destruct (PyStr.isspace a); [exact IH|by left].
Qed.

Lemma strip_app_space s c :
  PyStr.isspace c = true → PyStr.strip (s +:+ String c "") = PyStr.strip s.
Proof.
  intros Hc. unfold PyStr.strip.
  destruct (lstrip_app_space s c Hc) as [->|[-> ->]]; [|done].
  by apply rstrip_app_space.
Qed.

Lemma strip_cons_space s c :
  PyStr.isspace c = true → PyStr.strip (String c s) = PyStr.strip s.
Proof. intros Hc. unfold PyStr.strip. simpl. by rewrite Hc. Qed.

Lemma replace_app_other s c old :
  Ascii.eqb c old = false →
  PyStr.replace (s +:+ String c "") old "" = PyStr.replace s old "" +:+ String c "".
Proof.
  intros Hc. induction s as [|a s IH]; simpl; [by rewrite Hc|].
  rewrite IH. by destruct (Ascii.eqb a old).
Qed.

Lemma startswith_app s c m :
  Ascii.eqb c m = false →
  PyStr.startswith (s +:+ String c "") m = PyStr.startswith s m.
Proof. intros Hc. destruct s; simpl; [exact Hc|done]. Qed.

Lemma space_not_marker c m :
  PyStr.isspace c = true → PyStr.isspace m = false → Ascii.eqb c m = false.
Proof. intros Hc Hm. destruct (Ascii.eqb_spec c m); [congruence|done]. Qed.

Lemma append_empty_l (s : string) : "" +:+ s = s.
Proof. reflexivity. Qed.

(** X9. Whitespace at the end of a token, whitespace between a marker and
    its word, and whitespace before a token that starts with no marker are
    ignored: the iteration performs the same events and returns the same
    lists. *)
Theorem token_whitespace_ignored P r acc (token : string) (c : ascii) :
  PyStr.isspace c = true →
  filter_word P r acc (token +:+ String c "") = filter_word P r acc token
  ∧ filter_word P r acc (String "!" (String c token))
    = filter_word P r acc (String "!" token)
  ∧ filter_word P r acc (String "-" (String c token))
    = filter_word P r acc (String "-" token)
  ∧ (PyStr.startswith token "!" = false →
     PyStr.startswith token "-" = false →
     filter_word P r acc (String c token) = filter_word P r acc token).
Proof.
  intros Hc.
  pose proof (space_not_marker c "!" Hc eq_refl) as Hb.
  pose proof (space_not_marker c "-" Hc eq_refl) as Hd.
  destruct acc as [I E]. unfold filter_word. repeat split.
  - rewrite !startswith_app, !replace_app_other, !strip_app_space by done.
    reflexivity.
  - cbn [PyStr.startswith PyStr.replace]. rewrite !Ascii.eqb_refl, Hb.
    by rewrite !append_empty_l, strip_cons_space.
  - cbn [PyStr.startswith PyStr.replace]. rewrite !Ascii.eqb_refl, Hd.
    change (Ascii.eqb "-" "!") with false. cbv iota.
    by rewrite !append_empty_l, strip_cons_space.
  - intros -> ->. cbn [PyStr.startswith]. rewrite Hb, Hd.
    by rewrite strip_cons_space.
Qed.

Lemma token_whitespace_ignored_witness :
  PyStr.isspace " " = true
  ∧ filter_word "ns" r0 ([], []) ("cat" +:+ String " " "")
    = filter_word "ns" r0 ([], []) "cat"
  ∧ filter_word "ns" r0 ([], []) (String "!" (String " " "cat"))
    = filter_word "ns" r0 ([], []) (String "!" "cat")
  ∧ filter_word "ns" r0 ([], []) (String "-" (String " " "cat"))
    = filter_word "ns" r0 ([], []) (String "-" "cat")
  ∧ (PyStr.startswith "cat" "!" = false →
     PyStr.startswith "cat" "-" = false →
     filter_word "ns" r0 ([], []) (String " " "cat")
     = filter_word "ns" r0 ([], []) "cat").
Proof.
  assert (H : PyStr.isspace " " = true) by reflexivity.
  split; [exact H|].
  exact (token_whitespace_ignored "ns" r0 ([], []) "cat" " " H).
Defined.

Lemma append_assoc_str (a b c : string) : (a +:+ b) +:+ c = a +:+ b +:+ c.
Proof.
  induction a as [|x a IH]; [done|].
  change (String x ((a +:+ b) +:+ c) = String x (a +:+ b +:+ c)).
  by rewrite IH.
Qed.

Lemma prefix_refl_str (s : string) : String.prefix s s = true.
Proof.
  induction s as [|a s IH]; simpl; [done|].
  by destruct (ascii_dec a a).
Qed.

(** X10. When the prefix and the word hold no glob character, the scan
    the filter sends for the word returns exactly the stored keys that
    begin with [PREFIX_word]; the key [PREFIX_word] itself is among them
    when it is stored, so the set an exact term reads is part of what the
    prefix term reads. *)
Theorem literal_word_scans_prefix P r (word : string) :
  forallb literal (list_ascii_of_string (P +:+ "_" +:+ word)) = true →
  ∃ ks : list string,
    outcome (keys r (P +:+ "_" +:+ word +:+ "*")) = inr ks
    ∧ (∀ k, k ∈ ks ↔
         is_Some (db r !! k) ∧ String.prefix (P +:+ "_" +:+ word) k = true)
    ∧ (is_Some (db r !! (P +:+ "_" +:+ word)) →
       members r (P +:+ "_" +:+ word) ⊆ ⋃ (members r <$> ks)).
Proof.
  intros Hlit. eexists. split; [reflexivity|].
  assert (Hk : ∀ k,
    k ∈ List.filter (Glob.stringmatch (P +:+ "_" +:+ word +:+ "*"))
          (elements (dom (db r)))
    ↔ is_Some (db r !! k) ∧ String.prefix (P +:+ "_" +:+ word) k = true).
  { intros k. rewrite list_elem_of_In, filter_In, <- list_elem_of_In.
    rewrite elem_of_elements, elem_of_dom.
    replace (P +:+ "_" +:+ word +:+ "*") with ((P +:+ "_" +:+ word) +:+ "*")
      by (by rewrite !append_assoc_str).
    by rewrite stringmatch_literal_prefix. }
  split; [exact Hk|].
  intros Hsome i Hi. apply elem_of_union_list.
  exists (members r (P +:+ "_" +:+ word)). split; [|done].
  apply list_elem_of_fmap. exists (P +:+ "_" +:+ word). split; [done|].
  apply Hk. split; [done|apply prefix_refl_str].
Qed.

Lemma literal_word_scans_prefix_witness :
  forallb literal (list_ascii_of_string ("ns" +:+ "_" +:+ "cat")) = true
  ∧ ∃ ks : list string,
      outcome (keys r0 ("ns" +:+ "_" +:+ "cat" +:+ "*")) = inr ks
      ∧ (∀ k, k ∈ ks ↔
           is_Some (db r0 !! k)
           ∧ String.prefix ("ns" +:+ "_" +:+ "cat") k = true)
      ∧ (is_Some (db r0 !! ("ns" +:+ "_" +:+ "cat")) →
         members r0 ("ns" +:+ "_" +:+ "cat") ⊆ ⋃ (members r0 <$> ks)).
Proof.
  assert (H : forallb literal (list_ascii_of_string ("ns" +:+ "_" +:+ "cat"))
              = true) by reflexivity.
  split; [exact H|].
  exact (literal_word_scans_prefix "ns" r0 "cat" H).
Defined.

(** ** Properties of [upload] *)

Import Views.

Lemma filter_same_query_nil p t (l : list QueryRow) :
  List.filter (same_query p t) l = [] ↔ (p, t) ∉ key <$> l.
Proof.
  induction l as [|row l IH]; simpl.
  - split; [intros _ H; by apply not_elem_of_nil in H|done].
  - unfold same_query at 1. rewrite not_elem_of_cons.
    case_bool_decide as Hk.
    + split; [done|]. intros [Hne _]. destruct Hk as [<- <-]. by destruct Hne.
    + rewrite IH. split; [|by intros [_ ?]].
      intros H. split; [|done]. intros Heq. apply Hk.
      unfold key in Heq. by injection Heq as -> ->.
Qed.

Lemma filter_same_query_unique p t (l : list QueryRow) :
  NoDup (key <$> l) →
  List.filter (same_query p t) l = []
  ∨ ∃ row, List.filter (same_query p t) l = [row] ∧ row ∈ l ∧ key row = (p, t).
Proof.
  induction l as [|row l IH]; [by left|].
  intros Hnd. apply NoDup_cons in Hnd as [Hnin Hnd].
  cbn [List.filter]. destruct (same_query p t row) eqn:Hk.
  - right. exists row. apply bool_decide_eq_true in Hk as [Hp Ht].
    assert (Hkey : key row = (p, t)) by (unfold key; by rewrite Hp, Ht).
    rewrite Hkey in Hnin. apply filter_same_query_nil in Hnin.
    rewrite Hnin. split; [done|]. split; [by left|done].
  - destruct (IH Hnd) as [H|(row' & H & Hin & Hkey)]; [by left|].
    right. exists row'. split; [done|]. split; [by right|done].
Qed.

Lemma extended_nil actor w : extended actor [] w = w.
Proof.
  destruct w. unfold extended. simpl. by rewrite !app_nil_r, Z.add_0_r.
Qed.

Lemma extended_app actor new1 new2 w :
  extended actor new2 (extended actor new1 w) = extended actor (new1 ++ new2) w.
Proof.
  unfold extended. simpl. f_equal.
  - by rewrite app_assoc.
  - rewrite length_app. lia.
  - by rewrite fmap_app, app_assoc.
Qed.

(** On a table without duplicates the loop never raises: it appends the
    rows it creates and one Log row for each. *)
Lemma upload_lines_extends actor p (lines : list string) (w : World) :
  unique w →
  ∃ new : list QueryRow,
    upload_lines actor p lines w = (inr tt, extended actor new w)
    ∧ unique (extended actor new w)
    ∧ (∀ row, row ∈ new →
         q_project row = p ∧ q_query row ≠ ""
         ∧ ∃ line, line ∈ lines ∧ q_query row = PyStr.strip line)
    ∧ (∀ line, line ∈ lines → PyStr.strip line ≠ "" →
         (p, PyStr.strip line) ∈ key <$> (Query_objects w ++ new)).
Proof.
  revert w; induction lines as [|line lines IH]; intros w Hu.
  { exists []. rewrite extended_nil.
    split; [done|]. split; [done|].
    split; intros x H; by apply not_elem_of_nil in H. }
  cbn [upload_lines].
  destruct (PyStr.strip line) as [|a t] eqn:Hs.
  { destruct (IH w Hu) as (new & Hrun & Hu' & Hnew & Hall).
    exists new. split; [done|]. split; [done|]. split.
    - intros row Hrow. destruct (Hnew row Hrow) as (? & ? & l & ? & ?).
      repeat split; try done. exists l. split; [by right|done].
    - intros l Hl Hne. apply elem_of_cons in Hl as [->|Hl]; [congruence|].
      by apply Hall. }
  unfold Query_get_or_create.
  destruct (filter_same_query_unique p (String a t) _ Hu)
    as [Hnil|(row & Hone & Hin & Hkey)].
  - rewrite Hnil.
    set (q := {| q_id := Query_seq w + 1; q_project := p;
                 q_query := String a t |}).
    assert (Hu1 : unique (extended actor [q] w)).
    { unfold unique, extended. cbn [Query_objects].
      rewrite fmap_app. apply NoDup_app. split; [done|]. split.
      - intros k Hk Hq. apply list_elem_of_singleton in Hq. subst k.
        by apply filter_same_query_nil in Hnil.
      - apply NoDup_singleton. }
    destruct (IH _ Hu1) as (new & Hrun & Hu' & Hnew & Hall).
    exists (q :: new).
    change (q :: new) with ([q] ++ new). rewrite <- extended_app.
    split; [exact Hrun|]. split; [done|]. split.
    + intros row Hrow. apply elem_of_cons in Hrow as [->|Hrow].
      * repeat split; [done|]. exists line. split; [by left|done].
      * destruct (Hnew row Hrow) as (? & ? & l & ? & ?).
        repeat split; try done. exists l. split; [by right|done].
    + intros l Hl Hne. apply elem_of_cons in Hl as [->|Hl].
      * rewrite Hs, fmap_app. apply elem_of_app. right.
        apply list_elem_of_fmap. exists q. split; [done|].
        apply elem_of_app. left. by left.
      * specialize (Hall l Hl Hne). cbn [extended Query_objects] in Hall.
        by rewrite <- app_assoc in Hall.
  - rewrite Hone.
    destruct (IH w Hu) as (new & Hrun & Hu' & Hnew & Hall).
    exists new. split; [done|]. split; [done|]. split.
    + intros row' Hrow. destruct (Hnew row' Hrow) as (? & ? & l & ? & ?).
      repeat split; try done. exists l. split; [by right|done].
    + intros l Hl Hne. apply elem_of_cons in Hl as [->|Hl]; [|by apply Hall].
      rewrite Hs, fmap_app. apply elem_of_app. left.
      rewrite <- Hkey. by apply list_elem_of_fmap_2.
Qed.


Lemma upload_lines_blank actor p (lines : list string) (w : World) :
  (∀ line, line ∈ lines → PyStr.strip line = "") →
  upload_lines actor p lines w = (inr tt, w).
Proof.
  induction lines as [|line lines IH]; intros Hall; [done|].
  cbn [upload_lines]. rewrite (Hall line) by by left.
  apply IH. intros l Hl. apply Hall. by right.
Qed.

Lemma unique_w0 : unique w0.
Proof. unfold unique, w0. simpl. apply NoDup_singleton. Defined.

Lemma project_request0 :
  Project_get decimal_pk (POST request0 !! "project") w0 = inr 7%Z.
Proof. vm_compute. reflexivity. Defined.

(** X11. On a Query table without duplicate (project, text) pairs and for
    a known project, [upload] answers 201 and appends rows to the table,
    changing none: afterwards every non-blank posted line, stripped, is a
    query of the project, the table is still without duplicates, and every
    new row is a non-empty stripped line of the posted text, for that
    project. *)
Theorem upload_creates_missing to_pk request w p :
  unique w →
  Project_get to_pk (POST request !! "project") w = inr p →
  ∃ (new : list QueryRow) (w' : World),
    upload to_pk request w = (inr {| data := ""; status := 201 |}, w')
    ∧ Query_objects w' = Query_objects w ++ new
    ∧ unique w'
    ∧ (∀ line, line ∈ posted_lines request → PyStr.strip line ≠ "" →
         ∃ row, row ∈ Query_objects w'
                ∧ q_project row = p ∧ q_query row = PyStr.strip line)
    ∧ (∀ row, row ∈ new →
         q_project row = p ∧ q_query row ≠ ""
         ∧ ∃ line, line ∈ posted_lines request
                   ∧ q_query row = PyStr.strip line).
Proof.
  intros Hu Hp. unfold upload. rewrite Hp.
  destruct (upload_lines_extends (user request) p (posted_lines request) w Hu)
    as (new & Hrun & Hu' & Hnew & Hall).
  unfold posted_lines in Hrun. rewrite Hrun.
  eexists new, _. split; [reflexivity|]. cbn [Query_objects extended].
  split; [done|]. split; [exact Hu'|]. split; [|exact Hnew].
  intros line Hl Hne. specialize (Hall line Hl Hne).
  apply list_elem_of_fmap in Hall as (row & Hk & Hrow).
  exists row. split; [done|]. unfold key in Hk. by injection Hk as -> ->.
Qed.

Lemma upload_creates_missing_witness :
  unique w0
  ∧ Project_get decimal_pk (POST request0 !! "project") w0 = inr 7%Z
  ∧ ∃ (new : list QueryRow) (w' : World),
      upload decimal_pk request0 w0
      = (inr {| data := ""; status := 201 |}, w')
      ∧ Query_objects w' = Query_objects w0 ++ new
      ∧ unique w'
      ∧ (∀ line, line ∈ posted_lines request0 → PyStr.strip line ≠ "" →
           ∃ row, row ∈ Query_objects w'
                  ∧ q_project row = 7%Z ∧ q_query row = PyStr.strip line)
      ∧ (∀ row, row ∈ new →
           q_project row = 7%Z ∧ q_query row ≠ ""
           ∧ ∃ line, line ∈ posted_lines request0
                     ∧ q_query row = PyStr.strip line).
Proof.
  split; [exact unique_w0|]. split; [exact project_request0|].
  exact (upload_creates_missing decimal_pk request0 w0 7%Z
           unique_w0 project_request0).
Defined.

(** X12. In the same run [upload] writes one [QUERY_CREATE] Log row for
    each query it creates, in creation order, with the posting user as
    actor, and hands one cache-heating task for the project to
    [transaction.on_commit]; the Project table is not touched. *)
Theorem upload_logs_and_schedules to_pk request w p :
  unique w →
  Project_get to_pk (POST request !! "project") w = inr p →
  ∃ (new : list QueryRow) (w' : World),
    upload to_pk request w = (inr {| data := ""; status := 201 |}, w')
    ∧ Query_objects w' = Query_objects w ++ new
    ∧ Log_objects w'
      = Log_objects w
        ++ ((λ row, {| log_actor := user request; log_action := QUERY_CREATE;
                       log_query := q_id row; log_project := p |}) <$> new)
    ∧ on_commit w' = on_commit w ++ [HeatProjectCache p]
    ∧ Project_objects w' = Project_objects w.
Proof.
  intros Hu Hp. unfold upload. rewrite Hp.
  destruct (upload_lines_extends (user request) p (posted_lines request) w Hu)
    as (new & Hrun & Hu' & Hnew & Hall).
  unfold posted_lines in Hrun. rewrite Hrun.
  eexists new, _. split; [reflexivity|].
  cbn [Query_objects Log_objects on_commit Project_objects extended].
  split; [done|]. split; [|done].
  f_equal. apply Forall_fmap_ext_1, Forall_forall.
  intros row Hrow. destruct (Hnew row Hrow) as (Hproj & _).
  unfold create_log. by rewrite Hproj.
Qed.

Lemma upload_logs_and_schedules_witness :
  unique w0
  ∧ Project_get decimal_pk (POST request0 !! "project") w0 = inr 7%Z
  ∧ ∃ (new : list QueryRow) (w' : World),
      upload decimal_pk request0 w0
      = (inr {| data := ""; status := 201 |}, w')
      ∧ Query_objects w' = Query_objects w0 ++ new
      ∧ Log_objects w'
        = Log_objects w0
          ++ ((λ row, {| log_actor := user request0;
                         log_action := QUERY_CREATE;
                         log_query := q_id row; log_project := 7%Z |}) <$> new)
      ∧ on_commit w' = on_commit w0 ++ [HeatProjectCache 7%Z]
      ∧ Project_objects w' = Project_objects w0.
Proof.
  split; [exact unique_w0|]. split; [exact project_request0|].
  exact (upload_logs_and_schedules decimal_pk request0 w0 7%Z
           unique_w0 project_request0).
Defined.





(** X15. When every posted line is blank, or no text is posted, [upload]
    for a known project creates no query and no Log row, yet answers 201
    and still schedules the cache-heating task. *)
Theorem upload_blank_text to_pk request w p :
  Project_get to_pk (POST request !! "project") w = inr p →
  (∀ line, line ∈ posted_lines request → PyStr.strip line = "") →
  upload to_pk request w
  = (inr {| data := ""; status := 201 |},
     {| Project_objects := Project_objects w;
        Query_objects := Query_objects w;
        Query_seq := Query_seq w;
        Log_objects := Log_objects w;
        on_commit := on_commit w ++ [HeatProjectCache p] |}).
Proof.
  intros Hp Hblank. unfold upload. rewrite Hp.
  pose proof (upload_lines_blank (user request) p _ w Hblank) as Hrun.
  unfold posted_lines in Hrun. by rewrite Hrun.
Qed.

Lemma upload_blank_text_witness :
  Project_get decimal_pk (POST request2 !! "project") w0 = inr 7%Z
  ∧ (∀ line, line ∈ posted_lines request2 → PyStr.strip line = "")
  ∧ upload decimal_pk request2 w0
    = (inr {| data := ""; status := 201 |},
       {| Project_objects := Project_objects w0;
          Query_objects := Query_objects w0;
          Query_seq := Query_seq w0;
          Log_objects := Log_objects w0;
          on_commit := on_commit w0 ++ [HeatProjectCache 7%Z] |}).
Proof.
  assert (H1 : Project_get decimal_pk (POST request2 !! "project") w0
               = inr 7%Z) by (vm_compute; reflexivity).
  assert (H2 : ∀ line, line ∈ posted_lines request2 → PyStr.strip line = "").
  { intros line Hl.
    assert (Hp : posted_lines request2 = [""]) by (vm_compute; reflexivity).
    rewrite Hp in Hl. apply list_elem_of_singleton in Hl. by subst. }
  split; [exact H1|]. split; [exact H2|].
  exact (upload_blank_text decimal_pk request2 w0 7%Z H1 H2).
Defined.
